(** * EdDSA over Baby Jubjub: a shallow embedding of [zokrates/eddsa.py]

  The module signs with a secret scalar [k] and verifies with the public
  point [A = k*B]:

    - [PrivateKey.from_rand], [PrivateKey.sign]
    - [PublicKey.from_private], [PublicKey.verify]
    - [hash_to_scalar]

  The curve arithmetic ([babyjubjub.py]), the field element type
  ([field.py]) and the byte encoder ([utils.py]) are imported by the module
  and appear here as the interface [Collaborator]; what the proofs need
  from them is stated as hypotheses of the section [Facts].  Python
  exceptions are values of [result], as is a call that does not return;
  the operating system's entropy is an explicit stream that [from_rand]
  consumes. *)

From Stdlib Require Import ZArith List Lia Bool String Ascii.
From Stdlib.Strings Require Import Byte.
Import ListNotations.
Local Open Scope Z_scope.
Set Warnings "-register-all".

(** ** Outcomes

  A call returns a value, raises an exception, or does not return. *)

Inductive exn : Type :=
  | TypeError
  | ValueError
  | AttributeError
  | OverflowError
  | ZeroDivisionError.

Inductive result (A : Type) : Type :=
  | Ok (a : A)
  | Raise (e : exn)
  | Diverge.

Arguments Ok {A} a.
Arguments Raise {A} e.
Arguments Diverge {A}.

Definition bind {A B : Type} (r : result A) (f : A -> result B) : result B :=
  match r with
  | Ok a => f a
  | Raise e => Raise e
  | Diverge => Diverge
  end.

Notation "x <- c1 ;; c2" := (bind c1 (fun x => c2))
  (at level 61, c1 at next level, right associativity).
Notation "' pat <- c1 ;; c2" := (bind c1 (fun x => match x with pat => c2 end))
  (at level 61, pat pattern, c1 at next level, right associativity).

Definition is_ok {A : Type} (r : result A) : bool :=
  match r with
  | Ok _ => true
  | Raise _ => false
  | Diverge => false
  end.

(** [f(_) for _ in args], consumed from left to right; the first exception
  ends the iteration. *)
Fixpoint mapM {A B : Type} (f : A -> result B) (l : list A) : result (list B) :=
  match l with
  | [] => Ok []
  | a :: t => b <- f a ;; bs <- mapM f t ;; Ok (b :: bs)
  end.

(** ** Python values

  The values that reach the module: [None], integers, field elements
  ([FQ], carrying the canonical integer [n]), byte strings, curve points,
  [PublicKey] instances (passed to [hash_to_scalar] by [sign]) and tuples
  (composite messages). *)

Section Values.

Variable Point : Type.

Inductive pyval : Type :=
  | VNone
  | VInt (n : Z)
  | VFQ (n : Z)
  | VBytes (b : list byte)
  | VPoint (pt : Point)
  | VPublicKey (pt : Point)
  | VTuple (items : list pyval).

End Values.

Arguments VNone {Point}.
Arguments VInt {Point} n.
Arguments VFQ {Point} n.
Arguments VBytes {Point} b.
Arguments VPoint {Point} pt.
Arguments VPublicKey {Point} pt.
Arguments VTuple {Point} items.

(** ** Integers and bytes *)

Definition byte_val (b : byte) : Z := Z.of_N (Byte.to_N b).

(** [int.from_bytes(bs, "little")] *)
Fixpoint int_from_bytes_little (bs : list byte) : Z :=
  match bs with
  | [] => 0
  | b :: t => byte_val b + 256 * int_from_bytes_little t
  end.

(** The unsigned integer a byte string denotes, most significant byte
  first. *)
Definition int_from_bytes_big (bs : list byte) : Z :=
  fold_left (fun acc b => acc * 256 + byte_val b) bs 0.

(** One digit of [bytes.hex()]: lower-case hexadecimal. *)
Definition hex_digit (d : N) : ascii :=
  if (d <? 10)%N then ascii_of_N (48 + d) else ascii_of_N (87 + d).

Definition hex_of_byte (b : byte) : string :=
  String (hex_digit (Byte.to_N b / 16))
  (String (hex_digit (Byte.to_N b mod 16)) EmptyString).

(** [bs.hex()] *)
Fixpoint hex (bs : list byte) : string :=
  match bs with
  | [] => EmptyString
  | b :: t => (hex_of_byte b ++ hex t)%string
  end.

Definition digit_of_ascii (c : ascii) : option Z :=
  let n := Z.of_N (N_of_ascii c) in
  if (48 <=? n) && (n <=? 57) then Some (n - 48)
  else if (97 <=? n) && (n <=? 102) then Some (n - 87)
  else if (65 <=? n) && (n <=? 70) then Some (n - 55)
  else None.

Fixpoint int_digits16 (acc : Z) (s : string) : result Z :=
  match s with
  | EmptyString => Ok acc
  | String c t =>
    match digit_of_ascii c with
    | Some d => int_digits16 (acc * 16 + d) t
    | None => Raise ValueError
    end
  end.

(** [int(s, 16)] on a string of hexadecimal digits.  The empty string and
  any other character raise [ValueError]; the sign, prefix, underscore and
  white space forms that [int] also reads never occur in the output of
  [bytes.hex()] and are not modelled. *)
Definition int_base16 (s : string) : result Z :=
  match s with
  | EmptyString => Raise ValueError
  | _ => int_digits16 0 s
  end.

(** [a % b] on integers: the sign follows the divisor, as [Z.modulo]. *)
Definition py_mod (a b : Z) : result Z :=
  if b =? 0 then Raise ZeroDivisionError else Ok (a mod b).

(** [ceil(log2(m))] for an integer [m].  [math.log2] raises [ValueError]
  for [m <= 0].  It returns a float; the model takes the exact value, which
  the float agrees with unless [m] lies within rounding distance above a
  power of two. *)
Definition ceil_log2 (m : Z) : result Z :=
  if m <=? 0 then Raise ValueError else Ok (Z.log2_up m).

(** [ceil(a / 8)] for an integer [a]: true division, then the ceiling. *)
Definition ceil_div8 (a : Z) : Z := - ((- a) / 8).

(** ** The entropy source

  [os.urandom(n)] returns the next [n] bytes of the system's entropy; the
  stream of bytes still to come is the state. *)

Definition entropy : Type := nat -> byte.

Definition urandom (n : nat) (s : entropy) : list byte * entropy :=
  (map s (seq 0 n), fun i => s (n + i)%nat).

(** ** The collaborator

  [Point.generator()], [Point.__add__], [Point.mult] on an integer,
  [Point.__eq__], the constants [JUBJUB_E] and [JUBJUB_L] of
  [babyjubjub.py], [to_bytes] of [utils.py] and [hashlib.sha256]. *)

Class Collaborator (Point : Type) : Type := {
  generator : Point;
  point_add : Point -> Point -> Point;
  point_mult : Point -> Z -> Point;
  point_eqb : Point -> Point -> bool;
  JUBJUB_E : Z;
  JUBJUB_L : Z;
  to_bytes : pyval Point -> result (list byte);
  sha256 : list byte -> list byte
  }.

(** ** The module *)

Section Eddsa.

Context {Point : Type} {C : Collaborator Point}.

(** [class PrivateKey(namedtuple("_PrivateKey", ("fe")))]: the field holds
    whatever the constructor is given. *)
Record PrivateKey : Type := mkPrivateKey { fe : pyval Point }.

(** [class PublicKey(namedtuple("_PublicKey", ("p")))] *)
Record PublicKey : Type := mkPublicKey { p : Point }.

(** [B or Point.generator()]: a point is an object, hence true; only the
    default [None] selects the generator. *)
Definition or_generator (B : option Point) : Point :=
  match B with
  | Some b => b
  | None => generator
  end.

(** Modelled from the spec: [Point.mult] of [babyjubjub.py] multiplies a
    point by a non-negative integer, and a field element stands for its
    canonical integer value, which is never negative; this is the integer
    a scalar argument denotes.  With a negative integer the call does not
    return.  Any other value is rejected. *)
Definition scalar_arg (scalar : pyval Point) : result Z :=
  match scalar with
  | VInt n => if n <? 0 then Diverge else Ok n
  | VFQ n => Ok n
  | _ => Raise TypeError
  end.

(** [P.mult(scalar)] *)
Definition mult (P : Point) (scalar : pyval Point) : result Point :=
  n <- scalar_arg scalar ;; Ok (point_mult P n).

(** Modelled from the spec: [Point.__add__] of [babyjubjub.py] adds two
    group elements; [R + X] with [R] not a point is rejected. *)
Definition py_add (R : pyval Point) (X : Point) : result Point :=
  match R with
  | VPoint r => Ok (point_add r X)
  | _ => Raise TypeError
  end.

(** [v.n]: a field element exposes its integer; no other value of
    [pyval] has an attribute [n]. *)
Definition attr_n (v : pyval Point) : result Z :=
  match v with
  | VFQ n => Ok n
  | _ => Raise AttributeError
  end.

(** [R, S = sig] for a tuple [sig]; [S_] stands for [S]. *)
Definition unpack2 (sig : list (pyval Point))
  : result (pyval Point * pyval Point) :=
  match sig with
  | [R; S_] => Ok (R, S_)
  | _ => Raise ValueError
  end.

(** [hash_to_scalar] applied to the positional arguments [args]. *)
Definition hash_to_scalar (args : list (pyval Point)) : result Z :=
  chunks <- mapM to_bytes args ;;
  let p := List.concat chunks in
  let digest := sha256 p in
  int_base16 (hex digest).

(** [PrivateKey.from_rand()], reading the entropy stream [s]. *)
Definition from_rand (s : entropy) : result PrivateKey * entropy :=
  let mod_ := JUBJUB_L in
  match ceil_log2 mod_ with
  | Raise e => (Raise e, s)
  | Diverge => (Diverge, s)
  | Ok bits =>
      let nbytes := ceil_div8 bits + 1 in
      let '(drawn, s') := urandom (Z.to_nat nbytes) s in
      let rand_n := int_from_bytes_little drawn in
      (Ok (mkPrivateKey (VInt rand_n)), s')
  end.

(** [PublicKey.from_private(sk, B)]; [sk] is a [PrivateKey] ([inl]) or any
    other value ([inr]), which is wrapped. *)
Definition from_private (sk : PrivateKey + pyval Point) (B : option Point)
  : result PublicKey :=
  let B := or_generator B in
  let sk := match sk with
            | inl k => k
            | inr v => mkPrivateKey v
            end in
  A <- mult B (fe sk) ;;
  Ok (mkPublicKey A).

(** [self.sign(msg, B)] *)
Definition sign (self : PrivateKey) (msg : pyval Point) (B : option Point)
  : result (Point * Z) :=
  let B := or_generator B in
  A <- from_private (inl self) None ;;
  let M := msg in
  r <- hash_to_scalar [fe self; M] ;;
  R <- mult B (VInt r) ;;
  hRAM <- hash_to_scalar [VPoint R; VPublicKey (p A); M] ;;
  key_field <- attr_n (fe self) ;;
  S_ <- py_mod (r + key_field * hRAM) JUBJUB_E ;;
  Ok (R, S_).

(** [self.verify(sig, msg, B)]; [sig] is a tuple of any length. *)
Definition verify (self : PublicKey) (sig : list (pyval Point))
  (msg : pyval Point) (B : option Point) : result bool :=
  let B := or_generator B in
  '(R, S_) <- unpack2 sig ;;
  let M := msg in
  let A := p self in
  lhs <- mult B S_ ;;
  hRAM <- hash_to_scalar [R; VPoint A; M] ;;
  AhRAM <- mult A (VInt hRAM) ;;
  rhs <- py_add R AhRAM ;;
  Ok (point_eqb lhs rhs).

(** The signature [(R, S)] that [sign] returns, as the tuple handed to
    [verify]. *)
Definition sig_tuple (sg : Point * Z) : list (pyval Point) :=
  [VPoint (fst sg); VInt (snd sg)].

End Eddsa.

Arguments PrivateKey Point : clear implicits.
Arguments PublicKey Point : clear implicits.

(** ** SHA-256 (FIPS 180-4), for running the module on concrete inputs *)

Module Sha256.

Definition w32 (x : Z) : Z := Z.land x 0xffffffff.

Definition rotr (n x : Z) : Z :=
  Z.lor (Z.shiftr x n) (w32 (Z.shiftl x (32 - n))).

Definition Ch (e f g : Z) : Z :=
  Z.lxor (Z.land e f) (Z.land (Z.lxor e 0xffffffff) g).

Definition Maj (a b c : Z) : Z :=
  Z.lxor (Z.lxor (Z.land a b) (Z.land a c)) (Z.land b c).

Definition Sigma0 (a : Z) : Z :=
  Z.lxor (Z.lxor (rotr 2 a) (rotr 13 a)) (rotr 22 a).

Definition Sigma1 (e : Z) : Z :=
  Z.lxor (Z.lxor (rotr 6 e) (rotr 11 e)) (rotr 25 e).

Definition sigma0 (x : Z) : Z :=
  Z.lxor (Z.lxor (rotr 7 x) (rotr 18 x)) (Z.shiftr x 3).

Definition sigma1 (x : Z) : Z :=
  Z.lxor (Z.lxor (rotr 17 x) (rotr 19 x)) (Z.shiftr x 10).

(** The round constants are the first 32 bits of the fractional parts of
    the cube roots of the first 64 primes, the initial hash value those of
    the square roots of the first 8. *)
Definition is_prime (n : Z) : bool :=
  (1 <? n)
  && forallb (fun d => negb (n mod d =? 0))
     (map Z.of_nat (seq 2 (Z.to_nat n - 2))).

Definition primes : list Z :=
  Eval vm_compute in filter is_prime (map Z.of_nat (seq 2 310)).

(** The integer cube root of [n], bit by bit from [2^bits] down. *)
Fixpoint cube_root (bits : nat) (r n : Z) : Z :=
  match bits with
  | O => r
  | S bits' =>
    let c := r + 2 ^ Z.of_nat bits' in
    if c * c * c <=? n then cube_root bits' c n else cube_root bits' r n
  end.

Definition K : list Z :=
  Eval vm_compute in map (fun q => cube_root 36 0 (q * 2 ^ 96) mod 2 ^ 32) primes.

Definition state : Type := (Z * Z * Z * Z * Z * Z * Z * Z)%type.

Definition frac_sqrt (i : nat) : Z := Z.sqrt (nth i primes 0 * 2 ^ 64) mod 2 ^ 32.

Definition H0 : state :=
  Eval vm_compute in
  (frac_sqrt 0, frac_sqrt 1, frac_sqrt 2, frac_sqrt 3,
 frac_sqrt 4, frac_sqrt 5, frac_sqrt 6, frac_sqrt 7).

Definition byte_of_Z (z : Z) : byte :=
  match Byte.of_N (Z.to_N (z mod 256)) with
  | Some b => b
  | None => x00
  end.

Definition word_bytes (w : Z) : list byte :=
  [byte_of_Z (Z.shiftr w 24); byte_of_Z (Z.shiftr w 16);
   byte_of_Z (Z.shiftr w 8); byte_of_Z w].

Fixpoint words_of_bytes (bs : list byte) : list Z :=
  match bs with
  | b0 :: b1 :: b2 :: b3 :: t =>
      (((byte_val b0 * 256 + byte_val b1) * 256 + byte_val b2) * 256
       + byte_val b3) :: words_of_bytes t
  | _ => []
  end.

Definition pad (msg : list byte) : list byte :=
  let len := Z.of_nat (List.length msg) in
  msg ++ [x80] ++ repeat x00 (Z.to_nat ((55 - len) mod 64))
      ++ word_bytes (Z.shiftr (8 * len) 32) ++ word_bytes (8 * len).

Fixpoint schedule (fuel : nat) (w : list Z) : list Z :=
  match fuel with
  | O => w
  | S fuel' =>
      let t := List.length w in
      let x := w32 (sigma1 (nth (t - 2) w 0) + nth (t - 7) w 0
                    + sigma0 (nth (t - 15) w 0) + nth (t - 16) w 0) in
      schedule fuel' (w ++ [x])
  end.

Definition round (st : state) (kw : Z * Z) : state :=
  let '(a, b, c, d, e, f, g, h) := st in
  let t1 := h + Sigma1 e + Ch e f g + fst kw + snd kw in
  let t2 := Sigma0 a + Maj a b c in
  (w32 (t1 + t2), a, b, c, w32 (d + t1), e, f, g).

Definition compress (st : state) (block : list byte) : state :=
  let w := schedule 48 (words_of_bytes block) in
  let '(a, b, c, d, e, f, g, h) := fold_left round (combine K w) st in
  let '(a0, b0, c0, d0, e0, f0, g0, h0) := st in
  (w32 (a0 + a), w32 (b0 + b), w32 (c0 + c), w32 (d0 + d),
   w32 (e0 + e), w32 (f0 + f), w32 (g0 + g), w32 (h0 + h)).

Fixpoint blocks (fuel : nat) (bs : list byte) : list (list byte) :=
  match fuel, bs with
  | S fuel', _ :: _ => firstn 64 bs :: blocks fuel' (skipn 64 bs)
  | _, _ => []
  end.

Definition digest (msg : list byte) : list byte :=
  let padded := pad msg in
  let '(a, b, c, d, e, f, g, h) :=
    fold_left compress (blocks (List.length padded) padded) H0 in
  word_bytes a ++ word_bytes b ++ word_bytes c ++ word_bytes d
    ++ word_bytes e ++ word_bytes f ++ word_bytes g ++ word_bytes h.

End Sha256.

(** ** A collaborator to run the module with

  The subgroup that the Baby Jubjub base point generates is cyclic of
  order [L]; a point [n*G] is presented here by the residue [n mod L].
  [E = 8 * L] is the order of the curve and [Q] the modulus of its field.
  Integers and field elements encode on 32 bytes, most significant first;
  a point encodes as its residue, a [PublicKey] and a tuple as the
  encodings of their items, one after the other. *)

Module Cyclic.

Definition E : Z :=
  21888242871839275222246405745257275088614511777268538073601725287587578984328.

Definition L : Z :=
  2736030358979909402780800718157159386076813972158567259200215660948447373041.

Definition Q : Z :=
  21888242871839275222246405745257275088548364400416034343698204186575808495617.

Fixpoint be_bytes (len : nat) (n : Z) : list byte :=
  match len with
  | O => []
  | S len' => be_bytes len' (n / 256) ++ [Sha256.byte_of_Z n]
  end.

(** [n.to_bytes(32, "big")] *)
Definition int_to_bytes32 (n : Z) : result (list byte) :=
  if (n <? 0) || (2 ^ 256 <=? n) then Raise OverflowError
  else Ok (be_bytes 32 n).

Fixpoint encode (v : pyval Z) : result (list byte) :=
  match v with
  | VNone => Raise TypeError
  | VInt n => int_to_bytes32 n
  | VFQ n => int_to_bytes32 n
  | VBytes b => Ok b
  | VPoint pt => int_to_bytes32 pt
  | VPublicKey pt => int_to_bytes32 pt
  | VTuple items =>
      (fix join (l : list (pyval Z)) : result (list byte) :=
         match l with
         | [] => Ok []
         | x :: t => b <- encode x ;; bs <- join t ;; Ok (b ++ bs)
         end) items
  end.

#[global] Instance collaborator : Collaborator Z := {|
  generator := 1;
  point_add := fun a b => (a + b) mod L;
  point_mult := fun a n => (a * n) mod L;
  point_eqb := Z.eqb;
  JUBJUB_E := E;
  JUBJUB_L := L;
  to_bytes := encode;
  sha256 := Sha256.digest
  |}.

(** The secret [k] as a field element, and a short message. *)
Definition key (k : Z) : PrivateKey Z := mkPrivateKey (VFQ k).

Definition abc : pyval Z := VBytes [x61; x62; x63].

(** All bytes zero, all bytes [0xff]. *)
Definition zeros : entropy := fun _ => x00.

Definition ones : entropy := fun _ => xff.

End Cyclic.

(** The entropy stream whose bytes are the base-256 digits of [v], least
    significant first. *)
Definition entropy_of_int (v : Z) : entropy :=
  fun i => Sha256.byte_of_Z (v / 256 ^ Z.of_nat i).

(** * Facts *)

(** ** Results *)

Lemma is_ok_true {A : Type} (r : result A) :
  is_ok r = true -> exists a, r = Ok a.
Proof.
  destruct r as [a | e |]; simpl; intros H;
    [now exists a | discriminate | discriminate].
Qed.

Lemma bind_ok {A B : Type} (r : result A) (f : A -> result B) (b : B) :
  bind r f = Ok b -> exists a, r = Ok a /\ f a = Ok b.
Proof.
  destruct r as [a | e |]; simpl; intros H;
    [now exists a | discriminate | discriminate].
Qed.

Lemma mapM_Forall2 {A B : Type} (f : A -> result B) (l : list A) (bs : list B) :
  mapM f l = Ok bs <-> Forall2 (fun a b => f a = Ok b) l bs.
Proof.
  revert bs. induction l as [| a t IH]; intros bs; simpl.
  - split; intros H.
  + injection H as <-. constructor.
  + inversion H. reflexivity.
  - split; intros H.
  + apply bind_ok in H as (b & Hb & H).
    apply bind_ok in H as (bs' & Hbs & H).
    injection H as <-. constructor; [exact Hb | now apply IH].
  + inversion H as [| a' b t' bs' Hb Ht]; subst.
    rewrite Hb. simpl. apply IH in Ht. rewrite Ht. reflexivity.
Qed.

(** ** Bytes, hexadecimal digits and integers *)

Lemma byte_val_range (b : byte) : 0 <= byte_val b < 256.
Proof.
  unfold byte_val. pose proof (Byte.to_N_bounded b) as H.
  apply N2Z.inj_le in H. split; [apply N2Z.is_nonneg | simpl in H; lia].
Qed.

Lemma hex_of_byte_digits (b : byte) :
  exists c1 c2 d1 d2,
  hex_of_byte b = String c1 (String c2 EmptyString)
  /\ digit_of_ascii c1 = Some d1 /\ digit_of_ascii c2 = Some d2
  /\ d1 * 16 + d2 = byte_val b.
Proof.
  exists (hex_digit (Byte.to_N b / 16)), (hex_digit (Byte.to_N b mod 16)).
  destruct b; vm_compute; do 2 eexists; repeat split; reflexivity.
Qed.

Lemma int_digits16_hex_of_byte (b : byte) (acc : Z) (s : string) :
  int_digits16 acc (hex_of_byte b ++ s) = int_digits16 (acc * 256 + byte_val b) s.
Proof.
  destruct (hex_of_byte_digits b) as (c1 & c2 & d1 & d2 & -> & H1 & H2 & Hv).
  simpl. rewrite H1, H2. f_equal. lia.
Qed.

Lemma int_digits16_hex (bs : list byte) (acc : Z) :
  int_digits16 acc (hex bs)
  = Ok (fold_left (fun a b => a * 256 + byte_val b) bs acc).
Proof.
  revert acc. induction bs as [| b t IH]; intros acc.
  - reflexivity.
  - change (hex (b :: t)) with (hex_of_byte b ++ hex t)%string.
  rewrite int_digits16_hex_of_byte. apply IH.
Qed.

Lemma digit_of_ascii_nonneg (c : ascii) (d : Z) :
  digit_of_ascii c = Some d -> 0 <= d.
Proof.
  unfold digit_of_ascii. cbv zeta.
  set (n := Z.of_N (N_of_ascii c)).
  destruct (Z.leb_spec 48 n) as [H1 | H1]; cbn [andb].
  - destruct (n <=? 57); [intros H; injection H as H; lia |].
    destruct (Z.leb_spec 97 n) as [H2 | H2]; cbn [andb].
    + destruct (n <=? 102); [intros H; injection H as H; lia |].
      destruct ((65 <=? n) && (n <=? 70)); [| discriminate].
      intros H; injection H as H; lia.
    + destruct (Z.leb_spec 65 n) as [H3 | H3]; cbn [andb]; [| discriminate].
      destruct (n <=? 70); [| discriminate].
      intros H; injection H as H; lia.
  - destruct (Z.leb_spec 97 n) as [H2 | H2]; [lia |]. cbn [andb].
    destruct (Z.leb_spec 65 n) as [H3 | H3]; [lia |]. discriminate.
Qed.

Lemma int_digits16_nonneg (s : string) (acc v : Z) :
  0 <= acc -> int_digits16 acc s = Ok v -> 0 <= v.
Proof.
  revert acc. induction s as [| c t IH]; intros acc Hacc; simpl.
  - intros [= <-]. exact Hacc.
  - destruct (digit_of_ascii c) as [d |] eqn:Hd; [| discriminate].
    apply digit_of_ascii_nonneg in Hd. apply IH. lia.
Qed.

(** [int(s, 16)] on digits is never negative. *)
Lemma int_base16_nonneg (s : string) (v : Z) : int_base16 s = Ok v -> 0 <= v.
Proof.
  unfold int_base16. destruct s as [| c t]; [discriminate |].
  apply int_digits16_nonneg. lia.
Qed.

(** [int(bs.hex(), 16)] is the big-endian value of [bs]. *)
Lemma int_base16_hex (bs : list byte) :
  bs <> [] -> int_base16 (hex bs) = Ok (int_from_bytes_big bs).
Proof.
  intros Hne. unfold int_base16, int_from_bytes_big.
  rewrite <- int_digits16_hex.
  destruct bs as [| b t]; [congruence |].
  destruct (hex_of_byte_digits b) as (c1 & c2 & d1 & d2 & Hb & _).
  change (hex (b :: t)) with (hex_of_byte b ++ hex t)%string.
  rewrite Hb. reflexivity.
Qed.

Lemma fold_big_range (bs : list byte) (acc : Z) :
  0 <= acc ->
  let v := fold_left (fun a b => a * 256 + byte_val b) bs acc in
  0 <= v < (acc + 1) * 256 ^ Z.of_nat (List.length bs).
Proof.
  revert acc. induction bs as [| b t IH]; intros acc Hacc; simpl fold_left.
  - simpl. lia.
  - pose proof (byte_val_range b) as Hb.
  specialize (IH (acc * 256 + byte_val b) ltac:(lia)). simpl in IH.
  split; [apply IH |].
  eapply Z.lt_le_trans; [apply IH |].
  change (List.length (b :: t)) with (S (List.length t)).
  rewrite Nat2Z.inj_succ, Z.pow_succ_r by lia.
  assert (0 < 256 ^ Z.of_nat (List.length t)) by (apply Z.pow_pos_nonneg; lia).
  nia.
Qed.

Lemma int_from_bytes_big_range (bs : list byte) :
  0 <= int_from_bytes_big bs < 2 ^ (8 * Z.of_nat (List.length bs)).
Proof.
  pose proof (fold_big_range bs 0 ltac:(lia)) as H. cbv zeta in H.
  unfold int_from_bytes_big.
  rewrite Z.pow_mul_r by lia. change (2 ^ 8) with 256.
  rewrite Z.add_0_l, Z.mul_1_l in H. exact H.
Qed.

Lemma int_from_bytes_little_range (bs : list byte) :
  0 <= int_from_bytes_little bs < 2 ^ (8 * Z.of_nat (List.length bs)).
Proof.
  rewrite Z.pow_mul_r by lia. change (2 ^ 8) with 256.
  induction bs as [| b t IH].
  - simpl. lia.
  - pose proof (byte_val_range b) as Hb.
  change (List.length (b :: t)) with (S (List.length t)).
  rewrite Nat2Z.inj_succ, Z.pow_succ_r by lia.
  change (int_from_bytes_little (b :: t))
    with (byte_val b + 256 * int_from_bytes_little t). lia.
Qed.

Lemma int_from_bytes_little_const_ff (n : nat) :
  int_from_bytes_little (repeat xff n) = 2 ^ (8 * Z.of_nat n) - 1.
Proof.
  rewrite Z.pow_mul_r by lia. change (2 ^ 8) with 256.
  induction n as [| n IH].
  - reflexivity.
  - rewrite Nat2Z.inj_succ, Z.pow_succ_r by lia.
  change (int_from_bytes_little (repeat xff (S n)))
    with (byte_val xff + 256 * int_from_bytes_little (repeat xff n)).
  rewrite IH. change (byte_val xff) with 255. lia.
Qed.

Lemma int_from_bytes_little_const_00 (n : nat) :
  int_from_bytes_little (repeat x00 n) = 0.
Proof.
  induction n as [| n IH]; [reflexivity |].
  change (int_from_bytes_little (repeat x00 (S n)))
  with (byte_val x00 + 256 * int_from_bytes_little (repeat x00 n)).
  rewrite IH. reflexivity.
Qed.

Lemma map_const_seq {A : Type} (a : A) (start n : nat) :
  map (fun _ => a) (seq start n) = repeat a n.
Proof.
  revert start. induction n as [| n IH]; intros start; simpl; [reflexivity |].
  now rewrite IH.
Qed.

Lemma ceil_div8_spec (a : Z) : 8 * (ceil_div8 a - 1) < a <= 8 * ceil_div8 a.
Proof.
  unfold ceil_div8.
  pose proof (Z.div_mod (- a) 8 ltac:(lia)) as H.
  pose proof (Z.mod_pos_bound (- a) 8 ltac:(lia)) as Hm. lia.
Qed.

(** ** Byte strings and the integers they denote, one to one *)

Lemma byte_val_inj (a b : byte) : byte_val a = byte_val b -> a = b.
Proof.
  unfold byte_val. intros H. apply N2Z.inj in H.
  pose proof (Byte.of_to_N a) as Ha. rewrite H, Byte.of_to_N in Ha.
  now injection Ha.
Qed.

Lemma int_from_bytes_little_inj (a b : list byte) :
  List.length a = List.length b ->
  int_from_bytes_little a = int_from_bytes_little b -> a = b.
Proof.
  revert b. induction a as [| x a IH]; intros [| y b] Hlen Hv;
    try discriminate; [reflexivity |].
  change (byte_val x + 256 * int_from_bytes_little a
          = byte_val y + 256 * int_from_bytes_little b) in Hv.
  pose proof (byte_val_range x). pose proof (byte_val_range y).
  assert (Hxy : byte_val x = byte_val y) by lia.
  f_equal; [now apply byte_val_inj |].
  apply IH; [now injection Hlen | lia].
Qed.

Lemma int_from_bytes_little_app (a b : list byte) :
  int_from_bytes_little (a ++ b)
  = int_from_bytes_little a
    + 256 ^ Z.of_nat (List.length a) * int_from_bytes_little b.
Proof.
  induction a as [| x a IH].
  - simpl List.length. change (256 ^ Z.of_nat 0) with 1.
    change (int_from_bytes_little []) with 0. simpl app. lia.
  - change (int_from_bytes_little ((x :: a) ++ b))
      with (byte_val x + 256 * int_from_bytes_little (a ++ b)).
    change (int_from_bytes_little (x :: a))
      with (byte_val x + 256 * int_from_bytes_little a).
    change (List.length (x :: a)) with (S (List.length a)).
    rewrite IH, Nat2Z.inj_succ, Z.pow_succ_r by lia. lia.
Qed.

Lemma fold_big_little (bs : list byte) (acc : Z) :
  fold_left (fun a b => a * 256 + byte_val b) bs acc
  = int_from_bytes_little (rev bs) + 256 ^ Z.of_nat (List.length bs) * acc.
Proof.
  revert acc. induction bs as [| b t IH]; intros acc.
  - simpl List.length. change (256 ^ Z.of_nat 0) with 1.
    change (int_from_bytes_little (rev [])) with 0. simpl fold_left. lia.
  - change (fold_left (fun a b0 => a * 256 + byte_val b0) (b :: t) acc)
      with (fold_left (fun a b0 => a * 256 + byte_val b0) t (acc * 256 + byte_val b)).
    rewrite IH. change (rev (b :: t)) with (rev t ++ [b]).
    rewrite int_from_bytes_little_app, length_rev.
    change (int_from_bytes_little [b]) with (byte_val b + 256 * 0).
    change (List.length (b :: t)) with (S (List.length t)).
    rewrite Nat2Z.inj_succ, Z.pow_succ_r by lia. lia.
Qed.

Lemma int_from_bytes_big_inj (a b : list byte) :
  List.length a = List.length b ->
  int_from_bytes_big a = int_from_bytes_big b -> a = b.
Proof.
  intros Hlen Hv. unfold int_from_bytes_big in Hv.
  rewrite !fold_big_little, !Z.mul_0_r, !Z.add_0_r in Hv.
  apply int_from_bytes_little_inj in Hv; [| now rewrite !length_rev].
  rewrite <- (rev_involutive a), <- (rev_involutive b). now f_equal.
Qed.

Lemma byte_val_of_Z (z : Z) : byte_val (Sha256.byte_of_Z z) = z mod 256.
Proof.
  unfold Sha256.byte_of_Z, byte_val.
  pose proof (Z.mod_pos_bound z 256 eq_refl) as Hb.
  destruct (Byte.of_N (Z.to_N (z mod 256))) as [b |] eqn:Hof.
  - apply Byte.to_of_N in Hof. rewrite Hof. apply Z2N.id. lia.
  - apply Byte.of_N_None_iff in Hof. lia.
Qed.

Lemma int_from_bytes_little_digits (v : Z) (k n : nat) :
  int_from_bytes_little (map (entropy_of_int v) (seq k n))
  = (v / 256 ^ Z.of_nat k) mod 256 ^ Z.of_nat n.
Proof.
  revert k. induction n as [| n IH]; intros k.
  - change (256 ^ Z.of_nat 0) with 1. rewrite Z.mod_1_r. reflexivity.
  - change (int_from_bytes_little (map (entropy_of_int v) (seq k (S n))))
      with (byte_val (entropy_of_int v k)
            + 256 * int_from_bytes_little (map (entropy_of_int v) (seq (S k) n))).
    rewrite IH. unfold entropy_of_int. rewrite byte_val_of_Z.
    rewrite !Nat2Z.inj_succ, !Z.pow_succ_r by lia.
    assert (Hk : 0 < 256 ^ Z.of_nat k) by (apply Z.pow_pos_nonneg; lia).
    assert (Hn : 0 < 256 ^ Z.of_nat n) by (apply Z.pow_pos_nonneg; lia).
    rewrite (Z.mul_comm 256 (256 ^ Z.of_nat k)), <- Z.div_div by lia.
    rewrite Z.rem_mul_r by lia. reflexivity.
Qed.

(** Every integer of [n] bytes is the value of a draw of [n] bytes. *)
Lemma int_from_bytes_little_onto (v : Z) (n : nat) :
  0 <= v < 2 ^ (8 * Z.of_nat n) ->
  int_from_bytes_little (map (entropy_of_int v) (seq 0 n)) = v.
Proof.
  intros Hv. rewrite int_from_bytes_little_digits.
  change (256 ^ Z.of_nat 0) with 1. rewrite Z.div_1_r.
  apply Z.mod_small. rewrite Z.pow_mul_r in Hv by lia. exact Hv.
Qed.

(** ** The module against its collaborator *)

Section Facts.

Context {Point : Type} {C : Collaborator Point}.

(** The orders are positive; a SHA-256 digest has 32 bytes. *)
Hypothesis E_pos : 0 < JUBJUB_E.
Hypothesis L_pos : 0 < JUBJUB_L.
Hypothesis sha256_length : forall m, List.length (sha256 m) = 32%nat.

(** [==] on points is equality of group elements. *)
Hypothesis point_eqb_eq : forall P Q, point_eqb P Q = true <-> P = Q.

(** On the multiples of the generator, scalar multiplication is additive
    and multiplicative in the scalar, reduces it modulo [JUBJUB_E], and
    addition cancels. *)
Hypothesis gen_mult_add : forall a b, 0 <= a -> 0 <= b ->
  point_mult generator (a + b)
  = point_add (point_mult generator a) (point_mult generator b).
Hypothesis gen_mult_mult : forall a b, 0 <= a -> 0 <= b ->
  point_mult (point_mult generator a) b = point_mult generator (a * b).
Hypothesis gen_mult_mod : forall a, 0 <= a ->
  point_mult generator (a mod JUBJUB_E) = point_mult generator a.
Hypothesis gen_add_cancel : forall a b c, 0 <= a -> 0 <= b -> 0 <= c ->
  point_add (point_mult generator a) (point_mult generator b)
  = point_add (point_mult generator a) (point_mult generator c) ->
  point_mult generator b = point_mult generator c.

(** Those points have an encoding, and a [PublicKey] encodes as the
    point it wraps. *)
Hypothesis to_bytes_gen : forall n, 0 <= n ->
  is_ok (to_bytes (VPoint (point_mult generator n))) = true.
Hypothesis to_bytes_public_key : forall A,
  to_bytes (VPublicKey A) = to_bytes (VPoint A).

(** *** [hash_to_scalar] *)

Lemma sha256_nonempty (m : list byte) : sha256 m <> [].
Proof using sha256_length.
  intros H. pose proof (sha256_length m) as Hl. rewrite H in Hl. discriminate.
Qed.

Lemma hash_to_scalar_ok (args : list (pyval Point)) (chunks : list (list byte)) :
  mapM to_bytes args = Ok chunks ->
  hash_to_scalar args = Ok (int_from_bytes_big (sha256 (List.concat chunks))).
Proof using sha256_length.
  intros H. unfold hash_to_scalar. rewrite H. simpl.
  apply int_base16_hex, sha256_nonempty.
Qed.

Lemma hash_to_scalar_inv (args : list (pyval Point)) (h : Z) :
  hash_to_scalar args = Ok h ->
  exists chunks, mapM to_bytes args = Ok chunks
                 /\ h = int_from_bytes_big (sha256 (List.concat chunks)).
Proof using sha256_length.
  intros H. unfold hash_to_scalar in H.
  apply bind_ok in H as (chunks & Hc & H). exists chunks. split; [exact Hc |].
  rewrite int_base16_hex in H by apply sha256_nonempty. now injection H.
Qed.

Lemma digest_range (m : list byte) :
  0 <= int_from_bytes_big (sha256 m) < 2 ^ 256.
Proof using sha256_length.
  pose proof (int_from_bytes_big_range (sha256 m)) as H.
  rewrite sha256_length in H. exact H.
Qed.

Lemma hash_to_scalar_range (args : list (pyval Point)) (h : Z) :
  hash_to_scalar args = Ok h -> 0 <= h < 2 ^ 256.
Proof using sha256_length.
  intros H. apply hash_to_scalar_inv in H as (chunks & _ & ->).
  apply digest_range.
Qed.

Lemma hash_to_scalar_nonneg (args : list (pyval Point)) (h : Z) :
  hash_to_scalar args = Ok h -> 0 <= h.
Proof.
  unfold hash_to_scalar. intros H. apply bind_ok in H as (chunks & _ & H).
  now apply int_base16_nonneg in H.
Qed.

(** [P.mult(n)] returns for an integer [n >= 0]. *)
Lemma mult_int (P : Point) (n : Z) :
  0 <= n -> mult P (VInt n) = Ok (point_mult P n).
Proof.
  intros Hn. unfold mult, scalar_arg.
  destruct (Z.ltb_spec n 0) as [H | H]; [lia | reflexivity].
Qed.

(** C4: for a sequence of arguments whose encodings are [chunks], in the
    order of the arguments, [hash_to_scalar] returns the SHA-256 digest of
    the concatenation of the chunks, with nothing between them, read as an
    unsigned integer; the value lies in [[0, 2^256)] and is not reduced.
    The result is a function of the arguments. *)
Theorem hash_to_scalar_spec (args : list (pyval Point)) (chunks : list (list byte)) :
  Forall2 (fun a c => to_bytes a = Ok c) args chunks ->
  let digest := sha256 (List.concat chunks) in
  hash_to_scalar args = Ok (int_from_bytes_big digest)
  /\ 0 <= int_from_bytes_big digest < 2 ^ 256.
Proof using sha256_length.
  intros H digest. apply mapM_Forall2 in H.
  split; [now apply hash_to_scalar_ok | apply digest_range].
Qed.

(** *** [PublicKey.from_private] *)

(** C10: [from_private] wraps a value that is not a [PrivateKey] into
    one, and for a field element or an integer [n >= 0], wrapped or not, the
    public key is [B.mult(n)], with [B] the supplied point or, by default,
    the generator. *)
Theorem from_private_spec (v : pyval Point) (n : Z) (B : option Point) :
  from_private (inr v) B = from_private (inl (mkPrivateKey v)) B
  /\ (0 <= n ->
      from_private (inl (mkPrivateKey (VFQ n))) B
      = Ok (mkPublicKey (point_mult (or_generator B) n))
      /\ from_private (inr (VFQ n)) B
         = Ok (mkPublicKey (point_mult (or_generator B) n))
      /\ from_private (inl (mkPrivateKey (VInt n))) B
         = Ok (mkPublicKey (point_mult (or_generator B) n))
      /\ from_private (inr (VInt n)) B
         = Ok (mkPublicKey (point_mult (or_generator B) n)))
  /\ or_generator None = generator
  /\ (forall b, or_generator (Some b) = b).
Proof.
  split; [reflexivity |]. split; [| split; reflexivity].
  intros Hn. split; [reflexivity |]. split; [reflexivity |].
  unfold from_private. cbn [fe]. rewrite (mult_int _ n Hn). split; reflexivity.
Qed.

(** *** [PrivateKey.from_rand] *)

Lemma log2_up_bound (m : Z) : 0 < m -> m <= 2 ^ Z.log2_up m.
Proof.
  intros Hm. destruct (Z.eq_dec m 1) as [-> | Hne]; [simpl; lia |].
  apply (Z.log2_up_spec m). lia.
Qed.

Lemma nbytes_pos (bits : Z) : 0 <= bits -> 1 <= ceil_div8 bits + 1.
Proof. intros H. pose proof (ceil_div8_spec bits). lia. Qed.

Lemma from_rand_eq (s : entropy) :
  let nbytes := Z.to_nat (ceil_div8 (Z.log2_up JUBJUB_L) + 1) in
  from_rand s
  = (Ok (mkPrivateKey (VInt (int_from_bytes_little (map s (seq 0 nbytes))))),
     fun i => s (nbytes + i)%nat).
Proof using L_pos.
  unfold from_rand, ceil_log2.
  destruct (Z.leb_spec JUBJUB_L 0) as [H | H]; [lia | reflexivity].
Qed.

(** C9: with [bits = ceil(log2(JUBJUB_L))] and
    [nbytes = ceil(bits / 8) + 1], [from_rand] takes exactly the next
    [nbytes] bytes of entropy, reads them as a little-endian unsigned
    integer and stores that integer as it is.  The secret lies in
    [[0, 2^(8*nbytes))], and some draw gives a secret above [JUBJUB_L]. *)
Theorem from_rand_spec (s : entropy) :
  let bits := Z.log2_up JUBJUB_L in
  let nbytes := ceil_div8 bits + 1 in
  let rand_n := fun s' => int_from_bytes_little (map s' (seq 0 (Z.to_nat nbytes))) in
  JUBJUB_L <= 2 ^ bits
  /\ 8 * (nbytes - 2) < bits <= 8 * (nbytes - 1)
  /\ from_rand s
     = (Ok (mkPrivateKey (VInt (rand_n s))),
        fun i => s (Z.to_nat nbytes + i)%nat)
  /\ 0 <= rand_n s < 2 ^ (8 * nbytes)
  /\ exists s', JUBJUB_L < rand_n s'.
Proof using L_pos.
  intros bits nbytes rand_n.
  assert (Hbits : 0 <= bits) by apply Z.log2_up_nonneg.
  pose proof (ceil_div8_spec bits) as Hc.
  pose proof (log2_up_bound JUBJUB_L L_pos) as HL. fold bits in HL.
  assert (Hn : Z.of_nat (Z.to_nat nbytes) = nbytes) by (apply Z2Nat.id; subst nbytes; lia).
  split; [exact HL |].
  split; [subst nbytes; lia |].
  split; [apply from_rand_eq |].
  split.
  - pose proof (int_from_bytes_little_range (map s (seq 0 (Z.to_nat nbytes)))) as H.
    rewrite length_map, length_seq, Hn in H. exact H.
  - exists (fun _ => xff). unfold rand_n.
    rewrite map_const_seq, int_from_bytes_little_const_ff, Hn.
    assert (H8 : 2 ^ (8 * nbytes) = 2 ^ bits * 2 ^ (8 * nbytes - bits)).
    { rewrite <- Z.pow_add_r by (subst nbytes; lia). f_equal. lia. }
    assert (H2 : 2 ^ 8 <= 2 ^ (8 * nbytes - bits)).
    { apply Z.pow_le_mono_r; subst nbytes; lia. }
    change (2 ^ 8) with 256 in H2. nia.
Qed.

(** *** [PrivateKey.sign] *)

Lemma py_mod_E (a : Z) : py_mod a JUBJUB_E = Ok (a mod JUBJUB_E).
Proof using E_pos.
  unfold py_mod. destruct (Z.eqb_spec JUBJUB_E 0) as [H | H]; [lia | reflexivity].
Qed.

Lemma sign_eq (k : Z) (M : pyval Point) (B : option Point) (r h : Z) :
  hash_to_scalar [VFQ k; M] = Ok r ->
  hash_to_scalar [VPoint (point_mult (or_generator B) r);
                  VPublicKey (point_mult generator k); M] = Ok h ->
  sign (mkPrivateKey (VFQ k)) M B
  = Ok (point_mult (or_generator B) r, (r + k * h) mod JUBJUB_E).
Proof using E_pos.
  intros Hr Hh. pose proof (hash_to_scalar_nonneg _ _ Hr) as Hr0.
  unfold sign.
  change (from_private (inl (mkPrivateKey (VFQ k))) None)
    with (Ok (mkPublicKey (point_mult generator k))).
  cbn [bind fe p]. rewrite Hr. cbn [bind].
  rewrite (mult_int _ r Hr0). cbn [bind]. rewrite Hh. cbn [bind attr_n].
  rewrite py_mod_E. reflexivity.
Qed.

Lemma sign_inv (k : Z) (M : pyval Point) (B : option Point) (sg : Point * Z) :
  sign (mkPrivateKey (VFQ k)) M B = Ok sg ->
  exists r h,
    hash_to_scalar [VFQ k; M] = Ok r
    /\ hash_to_scalar [VPoint (point_mult (or_generator B) r);
                       VPublicKey (point_mult generator k); M] = Ok h
    /\ sg = (point_mult (or_generator B) r, (r + k * h) mod JUBJUB_E).
Proof using E_pos.
  intros H. unfold sign in H.
  change (from_private (inl (mkPrivateKey (VFQ k))) None)
    with (Ok (mkPublicKey (point_mult generator k))) in H.
  cbn [bind fe p] in H.
  apply bind_ok in H as (r & Hr & H).
  pose proof (hash_to_scalar_nonneg _ _ Hr) as Hr0.
  rewrite (mult_int _ r Hr0) in H. cbn [bind] in H.
  apply bind_ok in H as (h & Hh & H). cbn [bind attr_n] in H.
  rewrite py_mod_E in H. cbn [bind] in H. injection H as <-.
  exists r, h. repeat split; assumption.
Qed.

(** C3: for the key wrapping the field element [k] and a message [M],
    with [r] the hash of [(k, M)], [R = B.mult(r)], [A] the public key of
    [k] and [h] the hash of [(R, A, M)], [sign] returns [(R, S)] with
    [S = (r + k*h) mod JUBJUB_E]: [r] and [k] enter unreduced, only the
    sum is reduced, and [0 <= S < JUBJUB_E]. *)
Theorem sign_spec (k : Z) (M : pyval Point) (B : option Point) (r h : Z) :
  let self := mkPrivateKey (VFQ k) in
  let R := point_mult (or_generator B) r in
  let A := mkPublicKey (point_mult generator k) in
  hash_to_scalar [VFQ k; M] = Ok r ->
  hash_to_scalar [VPoint R; VPublicKey (p A); M] = Ok h ->
  from_private (inl self) None = Ok A
  /\ sign self M B = Ok (R, (r + k * h) mod JUBJUB_E)
  /\ 0 <= (r + k * h) mod JUBJUB_E < JUBJUB_E.
Proof using E_pos.
  intros self R A Hr Hh.
  split; [reflexivity |].
  split; [apply sign_eq; [exact Hr | exact Hh] |].
  apply Z.mod_pos_bound, E_pos.
Qed.

(** *** [PublicKey.verify] *)

Lemma verify_eq (A R : Point) (S_ : Z) (M : pyval Point) (B : option Point) (h : Z) :
  0 <= S_ ->
  hash_to_scalar [VPoint R; VPoint A; M] = Ok h ->
  verify (mkPublicKey A) [VPoint R; VInt S_] M B
  = Ok (point_eqb (point_mult (or_generator B) S_) (point_add R (point_mult A h))).
Proof.
  intros HS Hh. pose proof (hash_to_scalar_nonneg _ _ Hh) as Hh0.
  unfold verify. cbn [unpack2 bind p].
  rewrite (mult_int _ S_ HS). cbn [bind]. rewrite Hh. cbn [bind].
  rewrite (mult_int _ h Hh0). reflexivity.
Qed.

(** C2: for a public key [A], a signature [(R, S)] with [S >= 0] and a
    message [M], with [h] the hash of [(R, A, M)], [verify] returns [True]
    exactly when [B.mult(S)] and [R + A.mult(h)] are the same group element;
    its only inputs are the public key, the signature, the message and
    [B]. *)
Theorem verify_spec (A R : Point) (S_ : Z) (M : pyval Point) (B : option Point) (h : Z) :
  0 <= S_ ->
  hash_to_scalar [VPoint R; VPoint A; M] = Ok h ->
  exists b,
    verify (mkPublicKey A) [VPoint R; VInt S_] M B = Ok b
    /\ (b = true <->
        point_mult (or_generator B) S_ = point_add R (point_mult A h)).
Proof using point_eqb_eq.
  intros HS Hh. rewrite (verify_eq A R S_ M B h HS Hh).
  eexists. split; [reflexivity | apply point_eqb_eq].
Qed.



(** *** Signing, then verifying *)

Lemma hash2_ok (a b : pyval Point) (x y : list byte) :
  to_bytes a = Ok x -> to_bytes b = Ok y ->
  hash_to_scalar [a; b] = Ok (int_from_bytes_big (sha256 (x ++ y ++ []))).
Proof using sha256_length.
  intros Ha Hb. apply (hash_to_scalar_ok [a; b] [x; y]).
  simpl. rewrite Ha, Hb. reflexivity.
Qed.

Lemma hash3_ok (a b c : pyval Point) (x y z : list byte) :
  to_bytes a = Ok x -> to_bytes b = Ok y -> to_bytes c = Ok z ->
  hash_to_scalar [a; b; c]
  = Ok (int_from_bytes_big (sha256 (x ++ y ++ z ++ []))).
Proof using sha256_length.
  intros Ha Hb Hc. apply (hash_to_scalar_ok [a; b; c] [x; y; z]).
  simpl. rewrite Ha, Hb, Hc. reflexivity.
Qed.

(** [sign] hashes the [PublicKey], [verify] the point inside it. *)
Lemma hash_public_key (a m : pyval Point) (A : Point) :
  hash_to_scalar [a; VPublicKey A; m] = hash_to_scalar [a; VPoint A; m].
Proof using to_bytes_public_key.
  unfold hash_to_scalar. simpl. rewrite to_bytes_public_key. reflexivity.
Qed.

(** [G*((r + k*h) mod E) = G*r + (G*k)*h] *)
Lemma signature_equation (r k h : Z) :
  0 <= r -> 0 <= k -> 0 <= h ->
  point_mult generator ((r + k * h) mod JUBJUB_E)
  = point_add (point_mult generator r)
              (point_mult (point_mult generator k) h).
Proof using gen_mult_add gen_mult_mult gen_mult_mod.
  intros Hr Hk Hh.
  rewrite gen_mult_mod by nia.
  rewrite gen_mult_add by nia.
  rewrite gen_mult_mult by assumption. reflexivity.
Qed.

(** C1: for a key wrapping a field element [k] and a message [M] that
    both encode, [sign] returns a signature, and [verify] under the public
    key derived from [k] accepts it for [M]. *)
Theorem sign_verify_roundtrip (k : Z) (M : pyval Point) :
  0 <= k ->
  is_ok (to_bytes (VFQ k)) = true ->
  is_ok (to_bytes M) = true ->
  exists sg pk,
    sign (mkPrivateKey (VFQ k)) M None = Ok sg
    /\ from_private (inl (mkPrivateKey (VFQ k))) None = Ok pk
    /\ verify pk (sig_tuple sg) M None = Ok true.
Proof using E_pos sha256_length point_eqb_eq gen_mult_add gen_mult_mult
            gen_mult_mod to_bytes_gen to_bytes_public_key.
  intros Hk Hkb Hmb.
  apply is_ok_true in Hkb as (kb & Hkb). apply is_ok_true in Hmb as (mb & Hmb).
  pose proof (hash2_ok _ _ _ _ Hkb Hmb) as Hr.
  set (r := int_from_bytes_big (sha256 (kb ++ mb ++ []))) in Hr.
  assert (Hr0 : 0 <= r) by apply digest_range.
  destruct (is_ok_true _ (to_bytes_gen r Hr0)) as (rb & Hrb).
  destruct (is_ok_true _ (to_bytes_gen k Hk)) as (ab & Hab).
  pose proof (hash3_ok _ _ _ _ _ _ Hrb Hab Hmb) as Hh.
  set (h := int_from_bytes_big (sha256 (rb ++ ab ++ mb ++ []))) in Hh.
  assert (Hh0 : 0 <= h) by apply digest_range.
  exists (point_mult generator r, (r + k * h) mod JUBJUB_E),
         (mkPublicKey (point_mult generator k)).
  split.
  - apply (sign_eq k M None r h Hr). simpl or_generator.
    rewrite hash_public_key. exact Hh.
  - split; [reflexivity |].
    assert (HS : 0 <= (r + k * h) mod JUBJUB_E)
      by (apply Z.mod_pos_bound, E_pos).
    unfold sig_tuple. simpl fst. simpl snd.
    rewrite (verify_eq _ _ _ M None h HS Hh). f_equal.
    apply point_eqb_eq. simpl or_generator.
    now apply signature_equation.
Qed.

Lemma hash2_message (a M : pyval Point) (r : Z) :
  hash_to_scalar [a; M] = Ok r -> exists mb, to_bytes M = Ok mb.
Proof using sha256_length.
  intros H. apply hash_to_scalar_inv in H as (chunks & H & _).
  simpl in H. apply bind_ok in H as (x & _ & H).
  apply bind_ok in H as (l & H & _).
  apply bind_ok in H as (mb & H & _). now exists mb.
Qed.

(** C7, as the module has it: the signature of [M] under [k1], verified
    under the public key of [k2], is accepted exactly when
    [G*(k1*h1) = G*(k2*h2)], with [h1] and [h2] the challenges under the
    two public keys; it is accepted whenever [k1] and [k2] have the same
    public key. *)
Theorem cross_key_verify (k1 k2 : Z) (M : pyval Point) (sg : Point * Z) :
  0 <= k1 -> 0 <= k2 ->
  sign (mkPrivateKey (VFQ k1)) M None = Ok sg ->
  exists h1 h2 b,
    hash_to_scalar [VPoint (fst sg); VPublicKey (point_mult generator k1); M] = Ok h1
    /\ hash_to_scalar [VPoint (fst sg); VPoint (point_mult generator k2); M] = Ok h2
    /\ (pk <- from_private (inr (VFQ k2)) None ;; verify pk (sig_tuple sg) M None) = Ok b
    /\ (b = true <->
        point_mult generator (k1 * h1) = point_mult generator (k2 * h2))
    /\ (point_mult generator k1 = point_mult generator k2 -> b = true).
Proof using E_pos sha256_length point_eqb_eq gen_mult_add gen_mult_mult
            gen_mult_mod gen_add_cancel to_bytes_gen to_bytes_public_key.
  intros Hk1 Hk2 Hs.
  apply sign_inv in Hs as (r & h1 & Hr & Hh1 & ->). simpl or_generator in *.
  pose proof (hash_to_scalar_range _ _ Hr) as [Hr0 _].
  pose proof (hash_to_scalar_range _ _ Hh1) as [Hh10 _].
  destruct (hash2_message _ _ _ Hr) as (mb & Hmb).
  destruct (is_ok_true _ (to_bytes_gen r Hr0)) as (rb & Hrb).
  destruct (is_ok_true _ (to_bytes_gen k2 Hk2)) as (ab & Hab).
  pose proof (hash3_ok _ _ _ _ _ _ Hrb Hab Hmb) as Hh2.
  set (h2 := int_from_bytes_big (sha256 (rb ++ ab ++ mb ++ []))) in Hh2.
  assert (Hh20 : 0 <= h2) by apply digest_range.
  exists h1, h2. eexists. simpl fst.
  split; [exact Hh1 |]. split; [exact Hh2 |].
  split.
  { change (from_private (inr (VFQ k2)) None)
      with (Ok (mkPublicKey (point_mult generator k2))).
    cbn [bind]. unfold sig_tuple. cbn [fst snd].
    apply verify_eq; [apply Z.mod_pos_bound, E_pos | exact Hh2]. }
  assert (Hiff : point_eqb (point_mult (or_generator None) ((r + k1 * h1) mod JUBJUB_E))
                   (point_add (point_mult generator r)
                      (point_mult (point_mult generator k2) h2)) = true
                 <-> point_mult generator (k1 * h1) = point_mult generator (k2 * h2)).
  { rewrite point_eqb_eq. simpl or_generator.
    rewrite gen_mult_mod, gen_mult_add, gen_mult_mult by nia.
    split; [apply gen_add_cancel; nia | now intros ->]. }
  split; [exact Hiff |].
  intros HA. apply Hiff.
  rewrite hash_public_key, HA, Hh2 in Hh1. injection Hh1 as <-.
  rewrite <- !gen_mult_mult by assumption. now rewrite HA.
Qed.

(** C6: a key made by [from_rand] holds a plain integer, and [sign]
    reads the attribute [n] of the value it holds: generating a key and
    signing with it never returns a signature. *)
Theorem from_rand_key_cannot_sign (s : entropy) (M : pyval Point) (B : option Point) :
  is_ok (k <- fst (from_rand s) ;; sign k M B) = false.
Proof.
  unfold from_rand.
  destruct (ceil_log2 JUBJUB_L) as [bits | e |]; [| reflexivity | reflexivity].
  unfold urandom. cbn [fst bind]. unfold sign, from_private.
  cbn [fe bind or_generator].
  destruct (mult generator _) as [A | e |]; [| reflexivity | reflexivity].
  cbn [bind p].
  destruct (hash_to_scalar _) as [r | e |]; [| reflexivity | reflexivity].
  cbn [bind].
  destruct (mult _ _) as [R | e |]; [| reflexivity | reflexivity].
  cbn [bind].
  destruct (hash_to_scalar _) as [h | e |]; reflexivity.
Qed.

(** The exception is [AttributeError] once both hashes are defined. *)
Lemma sign_int_key_raises (n : Z) (M : pyval Point) (B : option Point) (r h : Z) :
  0 <= n ->
  hash_to_scalar [VInt n; M] = Ok r ->
  hash_to_scalar [VPoint (point_mult (or_generator B) r);
                  VPublicKey (point_mult generator n); M] = Ok h ->
  sign (mkPrivateKey (VInt n)) M B = Raise AttributeError.
Proof.
  intros Hn Hr Hh. pose proof (hash_to_scalar_nonneg _ _ Hr) as Hr0.
  unfold sign, from_private. cbn [fe or_generator].
  rewrite (mult_int _ n Hn). cbn [bind p].
  rewrite Hr. cbn [bind]. rewrite (mult_int _ r Hr0). cbn [bind p].
  rewrite Hh. reflexivity.
Qed.

(** *** Beyond the default arguments *)

Lemma gen_mult_plus_multiple (x y : Z) :
  0 <= x -> 0 <= y ->
  point_mult generator (x + y * JUBJUB_E) = point_mult generator x.
Proof using E_pos gen_mult_mod.
  intros Hx Hy. rewrite <- (gen_mult_mod (x + y * JUBJUB_E)) by nia.
  rewrite Z_mod_plus_full. now apply gen_mult_mod.
Qed.

(** [(b*G)*(a mod E) = G*(b*a)] *)
Lemma multiple_mult_mod (b a : Z) :
  0 <= b -> 0 <= a ->
  point_mult (point_mult generator b) (a mod JUBJUB_E)
  = point_mult generator (b * a).
Proof using E_pos gen_mult_mult gen_mult_mod.
  intros Hb Ha.
  pose proof (Z.mod_pos_bound a JUBJUB_E E_pos) as Hm.
  assert (Hq : 0 <= a / JUBJUB_E) by (apply Z.div_pos; lia).
  rewrite gen_mult_mult by lia.
  rewrite <- (gen_mult_plus_multiple (b * (a mod JUBJUB_E)) (b * (a / JUBJUB_E)))
    by nia.
  f_equal. rewrite (Z.div_mod a JUBJUB_E) at 3 by lia. ring.
Qed.

(** X1: [sign] with a base point [B = b*G] computes [R = B.mult(r)] but
    hashes the public key derived with the default generator, while
    [verify] with the same [B] hashes the public key it is given.  The
    signature is accepted under [from_private(k, B)] exactly when
    [G*(b*k*h) = G*(b*k*h')], [h] being the challenge of [sign] and [h'] that
    of [verify]. *)
Theorem sign_base_point_roundtrip (b k : Z) (M : pyval Point) (sg : Point * Z) :
  0 <= b -> 0 <= k ->
  sign (mkPrivateKey (VFQ k)) M (Some (point_mult generator b)) = Ok sg ->
  exists h h' v,
    hash_to_scalar [VPoint (fst sg); VPublicKey (point_mult generator k); M] = Ok h
    /\ hash_to_scalar [VPoint (fst sg);
                       VPoint (point_mult (point_mult generator b) k); M] = Ok h'
    /\ (pk <- from_private (inl (mkPrivateKey (VFQ k)))
                (Some (point_mult generator b)) ;;
        verify pk (sig_tuple sg) M (Some (point_mult generator b))) = Ok v
    /\ (v = true <->
        point_mult generator (b * k * h) = point_mult generator (b * k * h')).
Proof using E_pos sha256_length point_eqb_eq gen_mult_add gen_mult_mult
            gen_mult_mod gen_add_cancel to_bytes_gen.
  intros Hb Hk Hs.
  apply sign_inv in Hs as (r & h & Hr & Hh & ->). cbn [or_generator] in *.
  pose proof (hash_to_scalar_nonneg _ _ Hr) as Hr0.
  pose proof (hash_to_scalar_nonneg _ _ Hh) as Hh0.
  destruct (hash2_message _ _ _ Hr) as (mb & Hmb).
  assert (HR : point_mult (point_mult generator b) r = point_mult generator (b * r))
    by now apply gen_mult_mult.
  assert (HA : point_mult (point_mult generator b) k = point_mult generator (b * k))
    by now apply gen_mult_mult.
  assert (Hrb : exists rb, to_bytes (VPoint (point_mult (point_mult generator b) r)) = Ok rb)
    by (rewrite HR; apply is_ok_true, to_bytes_gen; nia).
  assert (Hab : exists ab, to_bytes (VPoint (point_mult (point_mult generator b) k)) = Ok ab)
    by (rewrite HA; apply is_ok_true, to_bytes_gen; nia).
  destruct Hrb as (rb & Hrb). destruct Hab as (ab & Hab).
  pose proof (hash3_ok _ _ _ _ _ _ Hrb Hab Hmb) as Hh'.
  set (h' := int_from_bytes_big (sha256 (rb ++ ab ++ mb ++ []))) in Hh'.
  assert (Hh'0 : 0 <= h') by apply digest_range.
  assert (HS : 0 <= (r + k * h) mod JUBJUB_E) by (apply Z.mod_pos_bound, E_pos).
  exists h, h'. eexists. cbn [fst].
  split; [exact Hh |]. split; [exact Hh' |].
  split.
  { change (from_private (inl (mkPrivateKey (VFQ k))) (Some (point_mult generator b)))
      with (Ok (mkPublicKey (point_mult (point_mult generator b) k))).
    cbn [bind]. unfold sig_tuple. cbn [fst snd].
    apply verify_eq; [exact HS | exact Hh']. }
  rewrite point_eqb_eq. cbn [or_generator].
  rewrite multiple_mult_mod by nia.
  rewrite HR, HA, gen_mult_mult by nia.
  replace (b * (r + k * h)) with (b * r + b * k * h) by ring.
  rewrite gen_mult_add by nia.
  split; [apply gen_add_cancel; nia | now intros ->].
Qed.

(** X2: an argument that [to_bytes] refuses makes [hash_to_scalar] raise
    the same exception, when the arguments before it encode. *)
Theorem hash_to_scalar_raises (pre post : list (pyval Point)) (a : pyval Point) (e : exn) :
  Forall (fun x => is_ok (to_bytes x) = true) pre ->
  to_bytes a = Raise e ->
  hash_to_scalar (pre ++ a :: post) = Raise e.
Proof.
  intros Hpre Ha. unfold hash_to_scalar.
  assert (Hm : mapM to_bytes (pre ++ a :: post) = Raise e).
  { induction Hpre as [| x pre' Hx _ IH]; simpl.
    - rewrite Ha. reflexivity.
    - apply is_ok_true in Hx as (b & ->). simpl. rewrite IH. reflexivity. }
  rewrite Hm. reflexivity.
Qed.

(** *** What [verify] accepts *)

Lemma verify_schnorr (k r h : Z) (M : pyval Point) :
  0 <= k -> 0 <= r ->
  hash_to_scalar [VPoint (point_mult generator r);
                  VPoint (point_mult generator k); M] = Ok h ->
  verify (mkPublicKey (point_mult generator k))
    [VPoint (point_mult generator r); VInt ((r + k * h) mod JUBJUB_E)] M None
  = Ok true.
Proof using E_pos point_eqb_eq gen_mult_add gen_mult_mult gen_mult_mod.
  intros Hk Hr Hh.
  pose proof (hash_to_scalar_nonneg _ _ Hh) as Hh0.
  assert (HS : 0 <= (r + k * h) mod JUBJUB_E) by (apply Z.mod_pos_bound, E_pos).
  rewrite (verify_eq _ _ _ M None h HS Hh). f_equal.
  apply point_eqb_eq. simpl or_generator. now apply signature_equation.
Qed.

(** X3: whatever the nonce [r >= 0], the pair [(G*r, (r + k*h) mod E)]
    with [h] the hash of [(G*r, G*k, M)] is accepted under the public key of
    [k]: [verify] does not ask that [r] be the hash of the key and the
    message. *)
Theorem verify_accepts_any_nonce (k r h : Z) (M : pyval Point) :
  0 <= k -> 0 <= r ->
  hash_to_scalar [VPoint (point_mult generator r);
                  VPoint (point_mult generator k); M] = Ok h ->
  exists pk,
    from_private (inr (VFQ k)) None = Ok pk
    /\ verify pk [VPoint (point_mult generator r);
                  VInt ((r + k * h) mod JUBJUB_E)] M None = Ok true.
Proof using E_pos point_eqb_eq gen_mult_add gen_mult_mult gen_mult_mod.
  intros Hk Hr Hh. exists (mkPublicKey (point_mult generator k)).
  split; [reflexivity | now apply verify_schnorr].
Qed.

Lemma gen_mult_plus_E (s : Z) :
  0 <= s -> point_mult generator (s + JUBJUB_E) = point_mult generator s.
Proof using E_pos gen_mult_mod.
  intros Hs. rewrite <- (gen_mult_mod (s + JUBJUB_E)) by lia.
  rewrite <- (gen_mult_mod s) by assumption. f_equal.
  rewrite <- (Z_mod_plus_full s 1 JUBJUB_E). f_equal. lia.
Qed.

(** X4: [verify] does not ask that [S] be below [JUBJUB_E]: under the
    default generator, [(R, S + JUBJUB_E)] has the outcome of [(R, S)]. *)
Theorem verify_scalar_malleable (pk : PublicKey Point) (R M : pyval Point) (S_ : Z) :
  0 <= S_ ->
  verify pk [R; VInt (S_ + JUBJUB_E)] M None = verify pk [R; VInt S_] M None.
Proof using E_pos gen_mult_mod.
  intros HS. unfold verify. cbn [unpack2 bind or_generator].
  rewrite !mult_int by lia. cbn [bind].
  rewrite gen_mult_plus_E by assumption. reflexivity.
Qed.

(** X5: [from_private] takes the scalar [0], and under its public key
    the pair [(G*r, r)] is accepted for every message, with no secret
    involved. *)
Theorem zero_key_forgery (r : Z) (M : pyval Point) :
  0 <= r ->
  is_ok (hash_to_scalar [VPoint (point_mult generator r);
                         VPoint (point_mult generator 0); M]) = true ->
  exists pk,
    from_private (inr (VInt 0)) None = Ok pk
    /\ verify pk [VPoint (point_mult generator r); VInt r] M None = Ok true.
Proof using point_eqb_eq gen_mult_add gen_mult_mult.
  intros Hr Hh. apply is_ok_true in Hh as (h & Hh).
  pose proof (hash_to_scalar_nonneg _ _ Hh) as Hh0.
  exists (mkPublicKey (point_mult generator 0)). split; [reflexivity |].
  rewrite (verify_eq _ _ _ M None h Hr Hh). f_equal.
  apply point_eqb_eq. simpl or_generator.
  rewrite gen_mult_mult, <- gen_mult_add by lia. f_equal. lia.
Qed.

(** *** The nonce and the base point *)

(** X6: the nonce is the hash of the key and the message and does not
    follow the base point.  Two signatures of one message under two base
    points share [r], and their scalars satisfy
    [S1 - S2 = k * (h1 - h2)] modulo [JUBJUB_E], with [h1] and [h2] the
    two challenges. *)
Theorem sign_nonce_shared (k : Z) (M : pyval Point) (B1 B2 : Point)
  (sg1 sg2 : Point * Z) :
  sign (mkPrivateKey (VFQ k)) M (Some B1) = Ok sg1 ->
  sign (mkPrivateKey (VFQ k)) M (Some B2) = Ok sg2 ->
  exists r h1 h2,
    hash_to_scalar [VFQ k; M] = Ok r
    /\ fst sg1 = point_mult B1 r
    /\ fst sg2 = point_mult B2 r
    /\ hash_to_scalar [VPoint (fst sg1); VPublicKey (point_mult generator k); M] = Ok h1
    /\ hash_to_scalar [VPoint (fst sg2); VPublicKey (point_mult generator k); M] = Ok h2
    /\ (snd sg1 - snd sg2) mod JUBJUB_E = (k * (h1 - h2)) mod JUBJUB_E.
Proof using E_pos.
  intros H1 H2.
  apply sign_inv in H1 as (r & h1 & Hr & Hh1 & ->).
  apply sign_inv in H2 as (r' & h2 & Hr' & Hh2 & ->).
  rewrite Hr in Hr'. injection Hr' as <-. simpl or_generator in *.
  exists r, h1, h2. cbn [fst snd].
  repeat (split; [assumption || reflexivity |]).
  rewrite <- Zminus_mod. f_equal. lia.
Qed.

(** *** Collisions of [hash_to_scalar] *)

(** X7: two sequences of arguments get the same scalar exactly when the
    SHA-256 digests of their concatenated encodings are equal; sequences
    whose encodings concatenate to the same bytes get the same scalar,
    however the bytes are split among the arguments. *)
Theorem hash_to_scalar_collisions (args args' : list (pyval Point))
  (chunks chunks' : list (list byte)) :
  Forall2 (fun a c => to_bytes a = Ok c) args chunks ->
  Forall2 (fun a c => to_bytes a = Ok c) args' chunks' ->
  (hash_to_scalar args = hash_to_scalar args'
   <-> sha256 (List.concat chunks) = sha256 (List.concat chunks'))
  /\ (List.concat chunks = List.concat chunks' ->
      hash_to_scalar args = hash_to_scalar args').
Proof using sha256_length.
  intros H H'. apply mapM_Forall2 in H. apply mapM_Forall2 in H'.
  rewrite (hash_to_scalar_ok _ _ H), (hash_to_scalar_ok _ _ H').
  split; [split |].
  - intros Heq. injection Heq as Heq.
    apply int_from_bytes_big_inj; [now rewrite !sha256_length | exact Heq].
  - now intros ->.
  - now intros ->.
Qed.

(** *** Generated keys *)

(** X8: the secret of [from_rand] and the bytes it draws determine each
    other: two streams give the same key exactly when their first [nbytes]
    bytes agree, and every integer of [nbytes] bytes is the secret of some
    draw. *)
Theorem from_rand_one_to_one :
  let nbytes := Z.to_nat (ceil_div8 (Z.log2_up JUBJUB_L) + 1) in
  (forall s1 s2,
      fst (from_rand s1) = fst (from_rand s2)
      <-> map s1 (seq 0 nbytes) = map s2 (seq 0 nbytes))
  /\ (forall v,
      0 <= v < 2 ^ (8 * Z.of_nat nbytes) ->
      fst (from_rand (entropy_of_int v)) = Ok (mkPrivateKey (VInt v))).
Proof using L_pos.
  intros nbytes. split.
  - intros s1 s2. rewrite !from_rand_eq. cbn [fst]. fold nbytes. split.
    + intros Heq.
      assert (Hv : int_from_bytes_little (map s1 (seq 0 nbytes))
                   = int_from_bytes_little (map s2 (seq 0 nbytes)))
        by congruence.
      apply int_from_bytes_little_inj; [now rewrite !length_map | exact Hv].
    + now intros ->.
  - intros v Hv. rewrite from_rand_eq. cbn [fst]. fold nbytes.
    now rewrite int_from_bytes_little_onto.
Qed.

(** X9: a generated key derives a public key, and two different
    generated secrets can have the same one: [0] and [JUBJUB_E] are both
    drawn, and both give [G*0]. *)
Theorem from_rand_public_key_collision :
  JUBJUB_E < 256 * JUBJUB_L ->
  exists s1 s2 k1 k2,
    fst (from_rand s1) = Ok k1
    /\ fst (from_rand s2) = Ok k2
    /\ k1 <> k2
    /\ from_private (inl k1) None = Ok (mkPublicKey (point_mult generator 0))
    /\ from_private (inl k2) None = Ok (mkPublicKey (point_mult generator 0)).
Proof using E_pos L_pos gen_mult_mod.
  intros HE.
  set (nb := ceil_div8 (Z.log2_up JUBJUB_L) + 1).
  assert (Hbits : 0 <= Z.log2_up JUBJUB_L) by apply Z.log2_up_nonneg.
  pose proof (ceil_div8_spec (Z.log2_up JUBJUB_L)) as Hc.
  pose proof (log2_up_bound JUBJUB_L L_pos) as HL.
  assert (Hn : Z.of_nat (Z.to_nat nb) = nb) by (apply Z2Nat.id; subst nb; lia).
  assert (Hpow : 256 * 2 ^ Z.log2_up JUBJUB_L <= 2 ^ (8 * nb)).
  { change 256 with (2 ^ 8). rewrite <- Z.pow_add_r by lia.
    apply Z.pow_le_mono_r; subst nb; lia. }
  assert (Hrange : forall v, 0 <= v <= JUBJUB_E ->
            fst (from_rand (entropy_of_int v)) = Ok (mkPrivateKey (VInt v))).
  { intros v Hv. rewrite from_rand_eq. cbn [fst]. fold nb.
    rewrite int_from_bytes_little_onto; [reflexivity |]. rewrite Hn. lia. }
  exists (entropy_of_int 0), (entropy_of_int JUBJUB_E),
         (mkPrivateKey (VInt 0)), (mkPrivateKey (VInt JUBJUB_E)).
  split; [apply Hrange; lia |]. split; [apply Hrange; lia |].
  split; [intros Heq; assert (0 = JUBJUB_E) by congruence; lia |].
  split; [reflexivity |].
  unfold from_private. cbn [fe or_generator].
  rewrite mult_int by lia. cbn [bind].
  rewrite <- (gen_mult_mod JUBJUB_E) by lia.
  now rewrite Z_mod_same_full.
Qed.

(** *** Keys that sign *)


End Facts.

(** ** SHA-256 on the standard test messages *)

Lemma sha256_empty :
  hex (Sha256.digest [])
  = "e3b0c44298fc1c149afbf4c8996fb92427ae41e4649b934ca495991b7852b855"%string.
Proof. vm_compute. reflexivity. Qed.

Lemma sha256_abc :
  hex (Sha256.digest [x61; x62; x63])
  = "ba7816bf8f01cfea414140de5dae2223b00361a396177a9cb410ff61f20015ad"%string.
Proof. vm_compute. reflexivity. Qed.

(** A message of two blocks. *)
Lemma sha256_two_blocks :
  hex (Sha256.digest (repeat x61 100))
  = "2816597888e4a0d3a36b82b83316ab32680eb8f00f8cd3b904d681246d285a0e"%string.
Proof. vm_compute. reflexivity. Qed.

(** ** The cyclic collaborator satisfies the hypotheses *)

Section Residues.

Variable m : Z.
Hypothesis m_pos : 0 < m.

Lemma residue_add (a b : Z) :
  (1 * (a + b)) mod m = ((1 * a) mod m + (1 * b) mod m) mod m.
Proof. rewrite !Z.mul_1_l. apply Zplus_mod. Qed.

Lemma residue_mult (a b : Z) : ((1 * a) mod m * b) mod m = (1 * (a * b)) mod m.
Proof. rewrite !Z.mul_1_l. apply Zmult_mod_idemp_l. Qed.

Lemma residue_mod (a : Z) : (1 * (a mod (8 * m))) mod m = (1 * a) mod m.
Proof.
  rewrite !Z.mul_1_l. apply Z.mod_mod_divide. exists 8. lia.
Qed.

Lemma residue_cancel (x y z : Z) :
  0 <= y < m -> 0 <= z < m -> (x + y) mod m = (x + z) mod m -> y = z.
Proof using m_pos.
  intros Hy Hz H.
  assert (Hd : (y - z) mod m = 0).
  { replace (y - z) with ((x + y) - (x + z)) by lia.
    rewrite Zminus_mod, H, Z.sub_diag. apply Z.mod_0_l. lia. }
  apply Z.mod_divide in Hd; [| lia]. destruct Hd as [q Hq].
  assert (Hq0 : q = 0)
    by (destruct (Z.lt_trichotomy q 0) as [Hlt | [Heq | Hgt]]; [nia | assumption | nia]).
  subst q. lia.
Qed.

End Residues.

Lemma cyclic_E_pos : 0 < JUBJUB_E (Collaborator := Cyclic.collaborator).
Proof. reflexivity. Qed.

Lemma cyclic_L_pos : 0 < JUBJUB_L (Collaborator := Cyclic.collaborator).
Proof. reflexivity. Qed.

Lemma cyclic_E_8L : Cyclic.E = 8 * Cyclic.L.
Proof. reflexivity. Qed.

Lemma cyclic_sha256_length (msg : list byte) :
  List.length (sha256 (Collaborator := Cyclic.collaborator) msg) = 32%nat.
Proof.
  change (List.length (Sha256.digest msg) = 32%nat). unfold Sha256.digest.
  destruct (fold_left _ _ _) as [[[[[[[a b] c] d] e] f] g] h]. reflexivity.
Qed.

Lemma cyclic_point_eqb_eq (P Q : Z) :
  point_eqb (Collaborator := Cyclic.collaborator) P Q = true <-> P = Q.
Proof. apply Z.eqb_eq. Qed.

Lemma cyclic_mult_add (a b : Z) :
  0 <= a -> 0 <= b ->
  point_mult (Collaborator := Cyclic.collaborator) generator (a + b)
  = point_add (point_mult generator a) (point_mult generator b).
Proof. intros _ _. apply residue_add. Qed.

Lemma cyclic_mult_mult (a b : Z) :
  0 <= a -> 0 <= b ->
  point_mult (Collaborator := Cyclic.collaborator) (point_mult generator a) b
  = point_mult generator (a * b).
Proof. intros _ _. apply residue_mult. Qed.

Lemma cyclic_mult_mod (a : Z) :
  0 <= a ->
  point_mult (Collaborator := Cyclic.collaborator) generator (a mod JUBJUB_E)
  = point_mult generator a.
Proof.
  intros _. change ((1 * (a mod Cyclic.E)) mod Cyclic.L = (1 * a) mod Cyclic.L).
  rewrite cyclic_E_8L. apply residue_mod.
Qed.

Lemma cyclic_add_cancel (a b c : Z) :
  0 <= a -> 0 <= b -> 0 <= c ->
  point_add (Collaborator := Cyclic.collaborator)
  (point_mult generator a) (point_mult generator b)
  = point_add (point_mult generator a) (point_mult generator c) ->
  point_mult (Collaborator := Cyclic.collaborator) generator b
  = point_mult generator c.
Proof.
  intros _ _ _.
  apply residue_cancel; [reflexivity | |]; apply Z.mod_pos_bound; reflexivity.
Qed.

Lemma cyclic_to_bytes_gen (n : Z) :
  0 <= n ->
  is_ok (to_bytes (Collaborator := Cyclic.collaborator)
         (VPoint (point_mult generator n))) = true.
Proof.
  intros _.
  change (is_ok (Cyclic.int_to_bytes32 ((1 * n) mod Cyclic.L)) = true).
  pose proof (Z.mod_pos_bound (1 * n) Cyclic.L eq_refl) as Hb.
  assert (HL : Cyclic.L < 2 ^ 256) by reflexivity.
  unfold Cyclic.int_to_bytes32.
  destruct (Z.ltb_spec ((1 * n) mod Cyclic.L) 0) as [H | H]; [lia |].
  destruct (Z.leb_spec (2 ^ 256) ((1 * n) mod Cyclic.L)) as [H' | H']; [lia |].
  reflexivity.
Qed.

Lemma cyclic_to_bytes_public_key (A : Z) :
  to_bytes (Collaborator := Cyclic.collaborator) (VPublicKey A)
  = to_bytes (VPoint A).
Proof. reflexivity. Qed.

(** ** The theorems at the cyclic collaborator *)

Lemma hash_to_scalar_spec_witness :
  let args := [VFQ 5; Cyclic.abc] in
  let chunks := [Cyclic.be_bytes 32 5; [x61; x62; x63]] in
  Forall2 (fun a c => to_bytes a = Ok c) args chunks
  /\ hash_to_scalar args = Ok (int_from_bytes_big (sha256 (List.concat chunks)))
  /\ 0 <= int_from_bytes_big (sha256 (List.concat chunks)) < 2 ^ 256.
Proof.
  intros args chunks.
  assert (H : Forall2 (fun a c => to_bytes a = Ok c) args chunks)
  by (repeat constructor).
  split; [exact H |].
  exact (@hash_to_scalar_spec Z Cyclic.collaborator cyclic_sha256_length args chunks H).
Defined.

Lemma from_rand_spec_witness :
  0 < JUBJUB_L
  /\ let bits := Z.log2_up JUBJUB_L in
   let nbytes := ceil_div8 bits + 1 in
   let rand_n := fun s' => int_from_bytes_little (map s' (seq 0 (Z.to_nat nbytes))) in
   JUBJUB_L <= 2 ^ bits
   /\ 8 * (nbytes - 2) < bits <= 8 * (nbytes - 1)
   /\ from_rand Cyclic.zeros
      = (Ok (mkPrivateKey (VInt (rand_n Cyclic.zeros))),
         fun i => Cyclic.zeros (Z.to_nat nbytes + i)%nat)
   /\ 0 <= rand_n Cyclic.zeros < 2 ^ (8 * nbytes)
   /\ exists s', JUBJUB_L < rand_n s'.
Proof.
  split; [reflexivity |].
  exact (@from_rand_spec Z Cyclic.collaborator cyclic_L_pos Cyclic.zeros).
Defined.

Lemma sign_spec_witness :
  0 < JUBJUB_E
  /\ exists r h,
    hash_to_scalar [VFQ 5; Cyclic.abc] = Ok r
    /\ hash_to_scalar [VPoint (point_mult generator r);
                       VPublicKey (point_mult generator 5); Cyclic.abc] = Ok h
    /\ from_private (inl (Cyclic.key 5)) None
       = Ok (mkPublicKey (point_mult generator 5))
    /\ sign (Cyclic.key 5) Cyclic.abc None
       = Ok (point_mult generator r, (r + 5 * h) mod JUBJUB_E)
    /\ 0 <= (r + 5 * h) mod JUBJUB_E < JUBJUB_E.
Proof.
  split; [reflexivity |].
  eexists. eexists.
  split; [vm_compute; reflexivity |].
  split; [vm_compute; reflexivity |].
  apply (@sign_spec Z Cyclic.collaborator cyclic_E_pos 5 Cyclic.abc None);
  vm_compute; reflexivity.
Defined.

Lemma verify_spec_witness :
  0 <= 1
  /\ exists h b,
      hash_to_scalar [VPoint 1; VPoint 5; Cyclic.abc] = Ok h
      /\ verify (mkPublicKey 5) [VPoint 1; VInt 1] Cyclic.abc None = Ok b
      /\ (b = true <->
          point_mult (or_generator None) 1 = point_add 1 (point_mult 5 h)).
Proof.
  assert (H1 : 0 <= 1) by lia.
  assert (Hh : exists h, hash_to_scalar [VPoint 1; VPoint 5; Cyclic.abc] = Ok h)
    by (eexists; vm_compute; reflexivity).
  destruct Hh as (h & Hh). split; [exact H1 |]. exists h.
  destruct (@verify_spec Z Cyclic.collaborator cyclic_point_eqb_eq
              5 1 1 Cyclic.abc None h H1 Hh) as (b & Hb).
  exists b. split; [exact Hh | exact Hb].
Defined.

Lemma sign_verify_roundtrip_witness :
  0 <= 5
  /\ is_ok (to_bytes (VFQ 5)) = true
  /\ is_ok (to_bytes Cyclic.abc) = true
  /\ exists sg pk,
    sign (Cyclic.key 5) Cyclic.abc None = Ok sg
    /\ from_private (inl (Cyclic.key 5)) None = Ok pk
    /\ verify pk (sig_tuple sg) Cyclic.abc None = Ok true.
Proof.
  split; [lia |]. split; [reflexivity |]. split; [reflexivity |].
  apply (@sign_verify_roundtrip Z Cyclic.collaborator
         cyclic_E_pos cyclic_sha256_length cyclic_point_eqb_eq
         cyclic_mult_add cyclic_mult_mult cyclic_mult_mod
         cyclic_to_bytes_gen cyclic_to_bytes_public_key 5 Cyclic.abc);
  [lia | reflexivity | reflexivity].
Defined.


(** Each part of C5 on a run: a triple, a scalar that is [None], a point
    [R] that is [None] and so has no encoding, and a pair that is read. *)
Lemma verify_outcome_runs :
  verify (mkPublicKey 5) [VPoint 1; VInt 1; VInt 1] Cyclic.abc None
  = Raise ValueError
  /\ verify (mkPublicKey 5) [VPoint 1; VNone] Cyclic.abc None = Raise TypeError
  /\ verify (mkPublicKey 5) [VNone; VInt 1] Cyclic.abc None = Raise TypeError
  /\ verify (mkPublicKey 5) [VPoint 1; VInt 1] Cyclic.abc None = Ok false.
Proof. repeat split; vm_compute; reflexivity. Qed.

Lemma from_private_spec_witness :
  from_private (inr (VInt 5)) None
  = from_private (inl (mkPrivateKey (VInt 5))) None
  /\ (0 <= 5 ->
      from_private (inl (mkPrivateKey (VFQ 5))) None
      = Ok (mkPublicKey (point_mult (or_generator None) 5))
      /\ from_private (inr (VFQ 5)) None
         = Ok (mkPublicKey (point_mult (or_generator None) 5))
      /\ from_private (inl (mkPrivateKey (VInt 5))) None
         = Ok (mkPublicKey (point_mult (or_generator None) 5))
      /\ from_private (inr (VInt 5)) None
         = Ok (mkPublicKey (point_mult (or_generator None) 5)))
  /\ or_generator None = generator
  /\ (forall b : Z, or_generator (Some b) = b).
Proof.
  exact (@from_private_spec Z Cyclic.collaborator (VInt 5) 5 None).
Defined.

Lemma cross_key_verify_witness :
  0 <= 1
  /\ 0 <= 1 + Cyclic.L
  /\ exists sg,
    sign (Cyclic.key 1) Cyclic.abc None = Ok sg
    /\ exists h1 h2 b,
        hash_to_scalar [VPoint (fst sg); VPublicKey (point_mult generator 1);
                        Cyclic.abc] = Ok h1
        /\ hash_to_scalar [VPoint (fst sg);
                           VPoint (point_mult generator (1 + Cyclic.L));
                           Cyclic.abc] = Ok h2
        /\ (pk <- from_private (inr (VFQ (1 + Cyclic.L))) None ;;
            verify pk (sig_tuple sg) Cyclic.abc None) = Ok b
        /\ (b = true <->
            point_mult generator (1 * h1)
            = point_mult generator ((1 + Cyclic.L) * h2))
        /\ (point_mult generator 1 = point_mult generator (1 + Cyclic.L)
            -> b = true).
Proof.
  assert (H1 : 0 <= 1) by lia.
  assert (H2 : 0 <= 1 + Cyclic.L) by (vm_compute; discriminate).
  assert (Hs : exists sg, sign (Cyclic.key 1) Cyclic.abc None = Ok sg)
  by (eexists; vm_compute; reflexivity).
  destruct Hs as (sg & Hs).
  split; [exact H1 |]. split; [exact H2 |].
  exists sg. split; [exact Hs |].
  exact (@cross_key_verify Z Cyclic.collaborator
         cyclic_E_pos cyclic_sha256_length cyclic_point_eqb_eq
         cyclic_mult_add cyclic_mult_mult cyclic_mult_mod cyclic_add_cancel
         cyclic_to_bytes_gen cyclic_to_bytes_public_key
         1 (1 + Cyclic.L) Cyclic.abc sg H1 H2 Hs).
Defined.

(** ** Where the module departs from its specification *)


(** C7: [1] and [1 + L] are different field elements, both below the
  field modulus, and the signature made with [1] verifies under the public
  key of [1 + L]. *)
Lemma cross_key_accepted :
  1 <> 1 + Cyclic.L
  /\ 0 <= 1 < Cyclic.Q
  /\ 0 <= 1 + Cyclic.L < Cyclic.Q
  /\ (sg <- sign (Cyclic.key 1) Cyclic.abc None ;;
    pk <- from_private (inr (VFQ (1 + Cyclic.L))) None ;;
    verify pk (sig_tuple sg) Cyclic.abc None) = Ok true.
Proof.
  split; [vm_compute; discriminate |].
  split; [split; [discriminate | reflexivity] |].
  split; [split; [vm_compute; discriminate | reflexivity] |].
  vm_compute. reflexivity.
Qed.

(** A different key that is not congruent to [1] is rejected by the same
  run. *)
Lemma cross_key_rejected :
  (sg <- sign (Cyclic.key 1) Cyclic.abc None ;;
 pk <- from_private (inr (VFQ 2)) None ;;
 verify pk (sig_tuple sg) Cyclic.abc None) = Ok false.
Proof. vm_compute. reflexivity. Qed.

(** C6: the key drawn from 33 zero bytes is [PrivateKey(0)], and signing
  with it raises [AttributeError]; the same integer wrapped as a field
  element signs. *)
Lemma from_rand_sign_attribute_error :
  fst (from_rand Cyclic.zeros) = Ok (mkPrivateKey (VInt 0))
  /\ (k <- fst (from_rand Cyclic.zeros) ;; sign k Cyclic.abc None)
   = Raise AttributeError
  /\ is_ok (sign (Cyclic.key 0) Cyclic.abc None) = true.
Proof. repeat split; vm_compute; reflexivity. Qed.

(** X1 and X2 at the cyclic collaborator. *)
Lemma sign_base_point_roundtrip_witness :
  0 <= 2
  /\ 0 <= 5
  /\ exists sg,
      sign (Cyclic.key 5) Cyclic.abc (Some (point_mult generator 2)) = Ok sg
      /\ exists h h' v,
          hash_to_scalar [VPoint (fst sg); VPublicKey (point_mult generator 5);
                          Cyclic.abc] = Ok h
          /\ hash_to_scalar [VPoint (fst sg);
                             VPoint (point_mult (point_mult generator 2) 5);
                             Cyclic.abc] = Ok h'
          /\ (pk <- from_private (inl (Cyclic.key 5))
                      (Some (point_mult generator 2)) ;;
              verify pk (sig_tuple sg) Cyclic.abc
                (Some (point_mult generator 2))) = Ok v
          /\ (v = true <->
              point_mult generator (2 * 5 * h)
              = point_mult generator (2 * 5 * h')).
Proof.
  assert (H2 : 0 <= 2) by lia. assert (H5 : 0 <= 5) by lia.
  assert (Hs : exists sg,
             sign (Cyclic.key 5) Cyclic.abc (Some (point_mult generator 2)) = Ok sg)
    by (eexists; vm_compute; reflexivity).
  destruct Hs as (sg & Hs).
  split; [exact H2 |]. split; [exact H5 |]. exists sg. split; [exact Hs |].
  exact (@sign_base_point_roundtrip Z Cyclic.collaborator
           cyclic_E_pos cyclic_sha256_length cyclic_point_eqb_eq
           cyclic_mult_add cyclic_mult_mult cyclic_mult_mod cyclic_add_cancel
           cyclic_to_bytes_gen 2 5 Cyclic.abc sg H2 H5 Hs).
Defined.

Lemma hash_to_scalar_raises_witness :
  Forall (fun x => is_ok (to_bytes x) = true) [VFQ 5]
  /\ to_bytes (VNone (Point := Z)) = Raise TypeError
  /\ hash_to_scalar ([VFQ 5] ++ VNone :: [Cyclic.abc]) = Raise TypeError.
Proof.
  assert (H1 : Forall (fun x => is_ok (to_bytes x) = true) [VFQ 5])
    by (repeat constructor).
  split; [exact H1 |]. split; [reflexivity |].
  exact (@hash_to_scalar_raises Z Cyclic.collaborator [VFQ 5] [Cyclic.abc]
           VNone TypeError H1 eq_refl).
Defined.

(** With the base point [2*G], the signature of the key [5] does not verify
    under the public key [5*(2*G)]. *)
Lemma sign_base_point_rejected :
  (sg <- sign (Cyclic.key 5) Cyclic.abc (Some 2) ;;
   pk <- from_private (inl (Cyclic.key 5)) (Some 2) ;;
   verify pk (sig_tuple sg) Cyclic.abc (Some 2)) = Ok false.
Proof. vm_compute. reflexivity. Qed.

(** X3 to X10 at the cyclic collaborator. *)
Lemma verify_accepts_any_nonce_witness :
  0 <= 5
  /\ 0 <= 7
  /\ exists h,
      hash_to_scalar [VPoint (point_mult generator 7);
                      VPoint (point_mult generator 5); Cyclic.abc] = Ok h
      /\ exists pk,
          from_private (inr (VFQ 5)) None = Ok pk
          /\ verify pk [VPoint (point_mult generator 7);
                        VInt ((7 + 5 * h) mod JUBJUB_E)] Cyclic.abc None
             = Ok true.
Proof.
  assert (H5 : 0 <= 5) by lia. assert (H7 : 0 <= 7) by lia.
  assert (Hh : exists h,
             hash_to_scalar [VPoint (point_mult generator 7);
                             VPoint (point_mult generator 5); Cyclic.abc] = Ok h)
    by (eexists; vm_compute; reflexivity).
  destruct Hh as (h & Hh).
  split; [exact H5 |]. split; [exact H7 |]. exists h. split; [exact Hh |].
  exact (@verify_accepts_any_nonce Z Cyclic.collaborator
           cyclic_E_pos cyclic_point_eqb_eq cyclic_mult_add
           cyclic_mult_mult cyclic_mult_mod 5 7 h Cyclic.abc H5 H7 Hh).
Defined.

Lemma verify_scalar_malleable_witness :
  0 <= 1
  /\ verify (mkPublicKey 5) [VPoint 1; VInt (1 + JUBJUB_E)] Cyclic.abc None
     = verify (mkPublicKey 5) [VPoint 1; VInt 1] Cyclic.abc None.
Proof.
  assert (H1 : 0 <= 1) by lia. split; [exact H1 |].
  exact (@verify_scalar_malleable Z Cyclic.collaborator cyclic_E_pos
           cyclic_mult_mod (mkPublicKey 5) (VPoint 1) Cyclic.abc 1 H1).
Defined.

Lemma zero_key_forgery_witness :
  0 <= 7
  /\ is_ok (hash_to_scalar [VPoint (point_mult generator 7);
                            VPoint (point_mult generator 0); Cyclic.abc]) = true
  /\ exists pk,
      from_private (inr (VInt 0)) None = Ok pk
      /\ verify pk [VPoint (point_mult generator 7); VInt 7] Cyclic.abc None
         = Ok true.
Proof.
  assert (H7 : 0 <= 7) by lia.
  assert (Hh : is_ok (hash_to_scalar [VPoint (point_mult generator 7);
                                      VPoint (point_mult generator 0);
                                      Cyclic.abc]) = true)
    by (vm_compute; reflexivity).
  split; [exact H7 |]. split; [exact Hh |].
  exact (@zero_key_forgery Z Cyclic.collaborator
           cyclic_point_eqb_eq cyclic_mult_add cyclic_mult_mult
           7 Cyclic.abc H7 Hh).
Defined.

Lemma sign_nonce_shared_witness :
  exists sg1 sg2,
    sign (Cyclic.key 5) Cyclic.abc (Some 2) = Ok sg1
    /\ sign (Cyclic.key 5) Cyclic.abc (Some 3) = Ok sg2
    /\ exists r h1 h2,
        hash_to_scalar [VFQ 5; Cyclic.abc] = Ok r
        /\ fst sg1 = point_mult 2 r
        /\ fst sg2 = point_mult 3 r
        /\ hash_to_scalar [VPoint (fst sg1); VPublicKey (point_mult generator 5);
                           Cyclic.abc] = Ok h1
        /\ hash_to_scalar [VPoint (fst sg2); VPublicKey (point_mult generator 5);
                           Cyclic.abc] = Ok h2
        /\ (snd sg1 - snd sg2) mod JUBJUB_E = (5 * (h1 - h2)) mod JUBJUB_E.
Proof.
  assert (H1 : exists sg, sign (Cyclic.key 5) Cyclic.abc (Some 2) = Ok sg)
    by (eexists; vm_compute; reflexivity).
  assert (H2 : exists sg, sign (Cyclic.key 5) Cyclic.abc (Some 3) = Ok sg)
    by (eexists; vm_compute; reflexivity).
  destruct H1 as (sg1 & H1). destruct H2 as (sg2 & H2).
  exists sg1, sg2. split; [exact H1 |]. split; [exact H2 |].
  exact (@sign_nonce_shared Z Cyclic.collaborator cyclic_E_pos
           5 Cyclic.abc 2 3 sg1 sg2 H1 H2).
Defined.

Lemma hash_to_scalar_collisions_witness :
  let args := [VBytes [x61; x62]; VBytes [x63]] in
  let args' := [VBytes [x61]; VBytes [x62; x63]] in
  let chunks := [[x61; x62]; [x63]] in
  let chunks' := [[x61]; [x62; x63]] in
  Forall2 (fun a c => to_bytes a = Ok c) args chunks
  /\ Forall2 (fun a c => to_bytes a = Ok c) args' chunks'
  /\ (hash_to_scalar args = hash_to_scalar args'
      <-> sha256 (List.concat chunks) = sha256 (List.concat chunks'))
  /\ (List.concat chunks = List.concat chunks' ->
      hash_to_scalar args = hash_to_scalar args').
Proof.
  intros args args' chunks chunks'.
  assert (H : Forall2 (fun a c => to_bytes a = Ok c) args chunks)
    by (repeat constructor).
  assert (H' : Forall2 (fun a c => to_bytes a = Ok c) args' chunks')
    by (repeat constructor).
  split; [exact H |]. split; [exact H' |].
  exact (@hash_to_scalar_collisions Z Cyclic.collaborator cyclic_sha256_length
           args args' chunks chunks' H H').
Defined.

Lemma from_rand_one_to_one_witness :
  0 < JUBJUB_L
  /\ let nbytes := Z.to_nat (ceil_div8 (Z.log2_up JUBJUB_L) + 1) in
     (forall s1 s2,
         fst (from_rand s1) = fst (from_rand s2)
         <-> map s1 (seq 0 nbytes) = map s2 (seq 0 nbytes))
     /\ (forall v,
         0 <= v < 2 ^ (8 * Z.of_nat nbytes) ->
         fst (from_rand (entropy_of_int v)) = Ok (mkPrivateKey (VInt v))).
Proof.
  split; [reflexivity |].
  exact (@from_rand_one_to_one Z Cyclic.collaborator cyclic_L_pos).
Defined.

Lemma from_rand_public_key_collision_witness :
  JUBJUB_E < 256 * JUBJUB_L
  /\ exists s1 s2 k1 k2,
      fst (from_rand s1) = Ok k1
      /\ fst (from_rand s2) = Ok k2
      /\ k1 <> k2
      /\ from_private (inl k1) None = Ok (mkPublicKey (point_mult generator 0))
      /\ from_private (inl k2) None = Ok (mkPublicKey (point_mult generator 0)).
Proof.
  assert (HE : JUBJUB_E < 256 * JUBJUB_L) by reflexivity.
  split; [exact HE |].
  exact (@from_rand_public_key_collision Z Cyclic.collaborator cyclic_E_pos
           cyclic_L_pos cyclic_mult_mod HE).
Defined.


(** The two ways to split [abc] among two arguments get one scalar. *)
Lemma hash_to_scalar_split_abc :
  hash_to_scalar [VBytes [x61; x62]; VBytes (Point := Z) [x63]]
  = hash_to_scalar [VBytes [x61]; VBytes (Point := Z) [x62; x63]].
Proof. vm_compute. reflexivity. Qed.
